(** * PhonyWorkQueue: a dispatcher that forwards work to the event loop

    Verification of [src/bun.js/bindings/webcrypto/PhonyWorkQueue.cpp].

    The translation unit defines two members of [Bun::PhonyWorkQueue]:

    - [create(name)], which heap-allocates a queue object and adopts it
      into a [Ref], ignoring [name];
    - [dispatch(function)], which heap-allocates an
      [EventLoopTaskNoContext] around [function] and passes the pointer to
      the C symbol [ConcurrentCppTask__createAndRun].

    The embedding is a state-and-error monad over a world made of the C++
    heap, the memory the deferred computations act on, the private state
    of the external task facility, and the log of calls made to it. *)

From stdpp Require Import gmap strings list.

Module Bun.

(** Non-null object addresses: [new] never returns null and a [Ref] is
    never null, so the null address is simply not a [loc]. *)
Abbreviation loc := positive (only parsing).

Section Model.

(** [Mem] is the memory deferred computations read and write (the
    counter of the spec's scenario); [Ext] is whatever the external task
    facility keeps for itself (its queues, its failure flags, ...). *)
Context {Mem Ext : Type}.

(** [WTF::Function<void()>]: a callable with no argument and no result;
    calling it can only act on memory. *)
Definition Function : Type := Mem → Mem.

(** Modelled from the spec: [EventLoopTaskNoContext.h] is not part of
    the sources. The spec calls it the task wrapper, an opaque container
    that adapts a deferred computation to the representation the
    external facility requires; it is the computation it was built
    from, kept in one field. *)
Record EventLoopTaskNoContext : Type := { m_task : Function }.

(** Modelled from the spec: [PhonyWorkQueue.h] is not part of the
    sources. The spec says the dispatcher is handed out as a shared
    reference-counted handle and is stateless beyond its identity: it
    holds no queue, no lock and no buffer. The only field is the count
    its [RefCounted] base keeps. *)
Record PhonyWorkQueue : Type := { m_refCount : nat }.

Inductive object : Type :=
| ObjWorkQueue (q : PhonyWorkQueue)
| ObjTask (t : EventLoopTaskNoContext).

Record World : Type := {
  heap : gmap loc object;   (* live C++ objects *)
  mem : Mem;                (* what deferred computations act on *)
  ext : Ext;                (* private state of the task facility *)
  calls : list loc          (* arguments of the calls made to
                               ConcurrentCppTask__createAndRun,
                               oldest first *)
}.

Definition set_heap (h : gmap loc object) (w : World) : World :=
  {| heap := h; mem := mem w; ext := ext w; calls := calls w |}.

(** ** The monad *)

Inductive fault : Type :=
| DanglingRef (p : loc)      (* no object lives at [p] *)
| WrongType (p : loc).       (* the object at [p] is of another class *)

Inductive result (A : Type) : Type :=
| Ok (a : A) (w : World)
| Fault (e : fault).
Arguments Ok {A} a w.
Arguments Fault {A} e.

Definition M (A : Type) : Type := World → result A.

#[global] Instance M_ret : MRet M := λ A a w, Ok a w.

#[global] Instance M_bind : MBind M := λ A B k m w,
  match m w with
  | Ok a w' => k a w'
  | Fault e => Fault e
  end.

(** ** Primitive operations *)

(** [new T(...)]: the object is placed at an address where nothing
    lives. *)
Definition new_ (o : object) : M loc := λ w,
  let p := fresh (dom (heap w)) in
  Ok p (set_heap (<[p := o]> (heap w)) w).

(** Calling a [WTF::Function<void()>]. Nothing in this translation unit
    does so; it gives "executing the computation" its meaning. *)
Definition invoke (f : Function) : M unit := λ w,
  Ok tt {| heap := heap w; mem := f (mem w); ext := ext w;
           calls := calls w |}.

(** Modelled from the spec: the default constructor that
    [new PhonyWorkQueue] runs is declared in [PhonyWorkQueue.h], and the
    [RefCounted] base it initialises in a WTF header; neither is part of
    the sources. The spec says the handle is reference-counted, shared
    among its holders, and that the dispatcher is destroyed when the last
    holder releases it: the count is the number of holders, and a new
    object has one, the creator who is about to adopt it. *)
Definition PhonyWorkQueue_ctor : PhonyWorkQueue := {| m_refCount := 1 |}.

(** Modelled from the spec: [adoptRef] comes from a WTF header that is
    not part of the sources. It turns a reference to a counted object
    into the handle the spec says [create] returns, taking over the
    reference the object was constructed with; the count is not touched.
    It reads the object, so there has to be a live queue behind the
    reference. *)
Definition adoptRef (p : loc) : M loc := λ w,
  match heap w !! p with
  | Some (ObjWorkQueue _) => Ok p w
  | Some (ObjTask _) => Fault (WrongType p)
  | None => Fault (DanglingRef p)
  end.

(** Modelled from the spec: the C symbol [ConcurrentCppTask__createAndRun],
    which takes a pointer to an [EventLoopTaskNoContext] and returns
    [void], is declared at line 14 and defined outside the sources. The
    spec describes it as an opaque task-creation facility that runs the
    task at some future point and that a test double can stand in for.
    What it does with the pointer during the call is the parameter
    [facility], an arbitrary transition on the facility's own state. *)
Variable facility : loc → Ext → Ext.

(** A call to the symbol: the facility makes its transition and the
    argument is appended to the call log. Being [void], the symbol gives
    nothing back. *)
Definition ConcurrentCppTask__createAndRun (task : loc) : M unit := λ w,
  Ok tt {| heap := heap w; mem := mem w; ext := facility task (ext w);
           calls := calls w ++ [task] |}.

(** ** The two functions of the translation unit *)

(** Lines 8-12. [(void)name;] discards the label. *)
Definition create (name : string) : M loc :=
  p ← new_ (ObjWorkQueue PhonyWorkQueue_ctor);
  adoptRef p.

(** Lines 16-19. [this] is the implicit receiver; the body never
    touches it. [WTFMove(function)] hands the callable over to the
    wrapper's constructor. *)
Definition dispatch (this : loc) (function : Function) : M unit :=
  task ← new_ (ObjTask {| m_task := function |});
  ConcurrentCppTask__createAndRun task.

(** ** Client programs

    Any interleaving of the two entry points, as a caller may issue
    them. [OpDispatch] carries the receiver the caller uses. The caller
    holds on to every handle [create] gives it: letting go of a [Ref] is
    a step of its own, which nothing in this translation unit takes and
    which is not one of the operations below. *)

Inductive op : Type :=
| OpCreate (name : string)
| OpDispatch (this : loc) (function : Function).

Definition run_op (o : op) : M unit :=
  match o with
  | OpCreate name => _ ← create name; mret tt
  | OpDispatch this function => dispatch this function
  end.

Fixpoint run_ops (os : list op) : M unit :=
  match os with
  | [] => mret tt
  | o :: os' => _ ← run_op o; run_ops os'
  end.

(** Successive [dispatch] calls on one receiver. *)
Fixpoint dispatch_all (this : loc) (fs : list Function) : M unit :=
  match fs with
  | [] => mret tt
  | f :: fs' => _ ← dispatch this f; dispatch_all this fs'
  end.

(** [task->m_task]: the computation held by the wrapper at [task], if a
    wrapper lives there. *)
Definition wrapped_function (w : World) (task : loc) : option Function :=
  match heap w !! task with
  | Some (ObjTask t) => Some (m_task t)
  | _ => None
  end.

(** [q->refCount()]: the count of the queue object at [q], if one lives
    there. *)
Definition refCount (w : World) (q : loc) : option nat :=
  match heap w !! q with
  | Some (ObjWorkQueue o) => Some (m_refCount o)
  | _ => None
  end.

(** A world where nothing has been allocated or submitted yet. *)
Definition init_world (m : Mem) (e : Ext) : World :=
  {| heap := ∅; mem := m; ext := e; calls := [] |}.

(** A task wrapper lives at [p]. *)
Definition is_task (w : World) (p : loc) : Prop :=
  ∃ t, heap w !! p = Some (ObjTask t).

(** No pointer was handed to the facility twice, and every pointer handed
    to it so far is the address of a live task wrapper. *)
Definition calls_wf (w : World) : Prop :=
  NoDup (calls w) ∧ Forall (is_task w) (calls w).

(** The computations a client program passes to [dispatch], in program
    order. *)
Fixpoint dispatched (os : list op) : list Function :=
  match os with
  | [] => []
  | OpCreate _ :: os' => dispatched os'
  | OpDispatch _ function :: os' => function :: dispatched os'
  end.

End Model.

Arguments World : clear implicits.
Arguments Function : clear implicits.
Arguments op : clear implicits.
Arguments M : clear implicits.
Arguments Ok {Mem Ext A} a w.
Arguments Fault {Mem Ext A} e.

(** * Test doubles

    Concrete instances used to run the model: memory is one counter, and
    the stand-in for the facility keeps the list of the tasks it was
    given. *)

Definition recording_facility (task : loc) (queue : list loc) : list loc :=
  queue ++ [task].

Definition increment : Function Z := λ counter, (counter + 1)%Z.

(** A facility that fails on every task and only remembers that it did. *)
Definition failing_facility (task : loc) (failed : bool) : bool := true.

Definition empty_world : World Z (list loc) := init_world 0%Z [].


Definition double : Function Z := λ counter, (counter * 2)%Z.

(** A world with one queue and one wrapper already handed over. *)
Definition busy_world : World Z (list loc) :=
  {| heap := {[ 1%positive := ObjWorkQueue PhonyWorkQueue_ctor;
                2%positive := ObjTask {| m_task := double |} ]};
     mem := 5%Z; ext := [2%positive]; calls := [2%positive] |}.

(** A world whose wrapper at 1 was handed over and has since been
    deleted by the facility: the log still has the address, the heap has
    nothing there. *)
Definition freed_world : World Z (list loc) :=
  {| heap := ∅; mem := 0%Z; ext := [1%positive]; calls := [1%positive] |}.

(** * Basic facts *)

Section Facts.

Context {Mem Ext : Type} (facility : loc → Ext → Ext).
Implicit Types (w : World Mem Ext) (f : Function Mem) (p this : loc).

Lemma fresh_not_live w : heap w !! fresh (dom (heap w)) = None.
Proof. apply not_elem_of_dom, is_fresh. Qed.

Lemma dispatch_unfold this f w :
  dispatch facility this f w =
  Ok tt {| heap := <[fresh (dom (heap w)) := ObjTask {| m_task := f |}]>
                     (heap w);
           mem := mem w;
           ext := facility (fresh (dom (heap w))) (ext w);
           calls := calls w ++ [fresh (dom (heap w))] |}.
Proof. reflexivity. Qed.

Lemma create_unfold name w :
  create name w =
  Ok (fresh (dom (heap w)))
     (set_heap (<[fresh (dom (heap w)) := ObjWorkQueue PhonyWorkQueue_ctor]>
                  (heap w)) w).
Proof.
  unfold create, mbind, M_bind, new_, adoptRef; simpl.
  by rewrite lookup_insert_eq.
Qed.

Lemma insert_fresh_subseteq w (o : object) :
  heap w ⊆ <[fresh (dom (heap w)) := o]> (heap w).
Proof. apply insert_subseteq, fresh_not_live. Qed.

Lemma run_op_grows o w :
  ∃ w', run_op facility o w = Ok tt w' ∧ heap w ⊆ heap w'.
Proof.
  destruct o as [name | this f]; simpl.
  - unfold mbind, M_bind. rewrite create_unfold. eexists; split; [done |].
    apply insert_fresh_subseteq.
  - rewrite dispatch_unfold. eexists; split; [done |].
    apply insert_fresh_subseteq.
Qed.

Lemma run_ops_grows os : ∀ w,
  ∃ w', run_ops facility os w = Ok tt w' ∧ heap w ⊆ heap w'.
Proof.
  induction os as [| o os IH]; intros w; simpl.
  - by exists w.
  - destruct (run_op_grows o w) as (w1 & Hrun & Hsub).
    destruct (IH w1) as (w2 & Hrest & Hsub').
    exists w2. unfold mbind, M_bind. rewrite Hrun. split; [done |].
    by etrans.
Qed.


Lemma is_task_weaken w w' p :
  heap w ⊆ heap w' → is_task w p → is_task w' p.
Proof. intros Hsub [t Ht]. exists t. by eapply lookup_weaken. Qed.

Lemma fresh_not_called w :
  Forall (is_task w) (calls w) → fresh (dom (heap w)) ∉ calls w.
Proof.
  intros Hlive Hin. rewrite Forall_forall in Hlive.
  destruct (Hlive _ Hin) as [t Ht]. by rewrite fresh_not_live in Ht.
Qed.

Lemma run_op_calls_wf o w :
  calls_wf w → ∃ w', run_op facility o w = Ok tt w' ∧ calls_wf w'.
Proof.
  intros [Hnd Hlive]. destruct o as [name | this f]; simpl.
  - unfold mbind, M_bind. rewrite create_unfold.
    eexists; split; [done |]. split; simpl; [done |].
    eapply Forall_impl; [exact Hlive |]. intros p.
    apply is_task_weaken, insert_fresh_subseteq.
  - rewrite dispatch_unfold. eexists; split; [done |]. split; simpl.
    + apply NoDup_app. split; [done |]. split; [| apply NoDup_singleton].
      intros p Hp ->%list_elem_of_singleton.
      by apply (fresh_not_called w).
    + apply Forall_app. split.
      * eapply Forall_impl; [exact Hlive |]. intros p.
        apply is_task_weaken; simpl. apply insert_fresh_subseteq.
      * apply Forall_singleton. eexists. apply lookup_insert_eq.
Qed.

Lemma run_ops_calls_wf os : ∀ w,
  calls_wf w → ∃ w', run_ops facility os w = Ok tt w' ∧ calls_wf w'.
Proof.
  induction os as [| o os IH]; intros w Hwf; simpl.
  - by exists w.
  - destruct (run_op_calls_wf o w Hwf) as (w1 & Hrun & Hwf1).
    destruct (IH w1 Hwf1) as (w2 & Hrest & Hwf2).
    exists w2. unfold mbind, M_bind. by rewrite Hrun.
Qed.



(** What a whole client program does to the world, in one induction. *)
Lemma run_ops_trace os : ∀ w,
  ∃ w' tasks,
    run_ops facility os w = Ok tt w' ∧
    heap w ⊆ heap w' ∧
    calls w' = calls w ++ tasks ∧
    wrapped_function w' <$> tasks = Some <$> dispatched os ∧
    mem w' = mem w ∧
    ext w' = foldl (λ e task, facility task e) (ext w) tasks.
Proof.
  induction os as [| [name | this f] os IH]; intros w; simpl.
  - exists w, []. by rewrite app_nil_r.
  - unfold mbind, M_bind. rewrite create_unfold; simpl.
    edestruct IH as (w' & tasks & -> & Hsub & Hcalls & Hfs & Hmem & Hext).
    exists w', tasks. simpl in *. split; [done |].
    split; [etrans; [apply insert_fresh_subseteq | exact Hsub] |].
    done.
  - unfold mbind, M_bind. rewrite dispatch_unfold.
    edestruct IH as (w' & tasks & -> & Hsub & Hcalls & Hfs & Hmem & Hext).
    exists w', (fresh (dom (heap w)) :: tasks). simpl in *.
    split; [done |].
    split; [etrans; [apply insert_fresh_subseteq | exact Hsub] |].
    split; [by rewrite Hcalls, <- app_assoc |].
    split; [| done].
    f_equal; [| done]. unfold wrapped_function.
    erewrite lookup_weaken; [| apply lookup_insert_eq | exact Hsub]. done.
Qed.

Lemma dispatch_all_size this fs : ∀ w,
  ∃ w', dispatch_all facility this fs w = Ok tt w' ∧
        size (heap w') = size (heap w) + length fs ∧
        length (calls w') = length (calls w) + length fs.
Proof.
  induction fs as [| f fs IH]; intros w; simpl.
  - exists w. auto with lia.
  - unfold mbind, M_bind. rewrite dispatch_unfold.
    edestruct IH as (w' & -> & Hsz & Hlen).
    exists w'. split; [done |]. simpl in *.
    rewrite map_size_insert_None in Hsz by apply fresh_not_live.
    rewrite length_app in Hlen; simpl in Hlen. lia.
Qed.

End Facts.

(** * The claims *)

Section Claims.

Context {Mem Ext : Type} (facility : loc → Ext → Ext).
Implicit Types (w : World Mem Ext) (f : Function Mem) (p this : loc).

(** C1. One call to [dispatch] calls [ConcurrentCppTask__createAndRun]
    exactly once: the call log grows by one entry, and the facility makes
    one transition, on that entry. *)
Theorem dispatch_submits_once this f w :
  ∃ task w',
    dispatch facility this f w = Ok tt w' ∧
    calls w' = calls w ++ [task] ∧
    length (calls w') = S (length (calls w)) ∧
    ext w' = facility task (ext w).
Proof.
  rewrite dispatch_unfold. eexists _, _; split; [done |]; simpl.
  rewrite length_app; simpl. repeat split; lia.
Qed.

(** C2. The pointer [dispatch] hands to the facility is the address of a
    task wrapper whose stored function is the very computation the caller
    passed. *)
Theorem dispatch_wraps_function this f w :
  ∃ task w',
    dispatch facility this f w = Ok tt w' ∧
    last (calls w') = Some task ∧
    heap w' !! task = Some (ObjTask {| m_task := f |}) ∧
    wrapped_function w' task = Some f.
Proof.
  rewrite dispatch_unfold. eexists _, _; split; [done |].
  unfold wrapped_function; simpl.
  by rewrite last_snoc, lookup_insert_eq.
Qed.

(** C3. [dispatch] always returns, and when it does the computation has
    not run: memory is exactly what it was, for every computation, every
    receiver and every facility. Apart from the new wrapper, the only
    thing done is the hand-off. *)
Theorem dispatch_defers this f w :
  ∃ task w',
    dispatch facility this f w = Ok tt w' ∧
    mem w' = mem w ∧
    w' = {| heap := <[task := ObjTask {| m_task := f |}]> (heap w);
            mem := mem w;
            ext := facility task (ext w);
            calls := calls w ++ [task] |}.
Proof. rewrite dispatch_unfold. by eexists _, _. Qed.

(** C4. The label given to [create] has no influence: two runs that
    differ only in the label return the same handle in the same world,
    and dispatching the same computation through the handle of either run
    ends in the same world, hence with the same submission. *)
Theorem create_name_irrelevant (name1 name2 : string) f w :
  create name1 w = create name2 w ∧
  (q ← create name1; dispatch facility q f) w =
  (q ← create name2; dispatch facility q f) w.
Proof. split; reflexivity. Qed.

(** C5. [create] has no failure branch and no precondition: in every
    world and for every label it returns a handle to a live queue object,
    and that handle can be dispatched through. *)
Theorem create_total (name : string) w :
  ∃ q w',
    create name w = Ok q w' ∧
    heap w' !! q = Some (ObjWorkQueue PhonyWorkQueue_ctor) ∧
    ∀ f, ∃ w'', dispatch facility q f w' = Ok tt w''.
Proof.
  rewrite create_unfold. eexists _, _; split; [done |]; simpl. split.
  - apply lookup_insert_eq.
  - intros f. eexists. apply dispatch_unfold.
Qed.

(** C6. [dispatch] never faults and returns unit, and what the caller can
    see afterwards (heap, memory, call log) does not depend on what the
    facility did with the task: a facility that fails and one that does
    not are indistinguishable through [dispatch]. *)
Theorem dispatch_no_failure_path (facility' : loc → Ext → Ext) this f w :
  ∃ w1 w2,
    dispatch facility this f w = Ok tt w1 ∧
    dispatch facility' this f w = Ok tt w2 ∧
    heap w1 = heap w2 ∧ mem w1 = mem w2 ∧ calls w1 = calls w2.
Proof. rewrite !dispatch_unfold. by eexists _, _. Qed.

(** C7. Frame of [dispatch]: it returns unit; memory is untouched; every
    object that was live, the dispatcher included, is still there and
    unchanged; the only addition is the wrapper that was submitted, at an
    address where nothing lived. *)
Theorem dispatch_frame this f w :
  ∃ task w',
    dispatch facility this f w = Ok tt w' ∧
    mem w' = mem w ∧
    heap w !! task = None ∧
    heap w' = <[task := ObjTask {| m_task := f |}]> (heap w) ∧
    heap w ⊆ heap w' ∧
    calls w' = calls w ++ [task].
Proof.
  rewrite dispatch_unfold. eexists _, _; split; [done |]; simpl.
  repeat split; auto using fresh_not_live, insert_fresh_subseteq.
Qed.


(** C9. Every [dispatch] hands over a wrapper of its own, newly
    allocated. In any world, take two [dispatch] calls, on any receivers
    and with any sequence of [create] and [dispatch] calls between them.
    Each submits the address of an object that did not exist before the
    call and is, after it, a wrapper of the computation given to that
    call; the two wrappers are live side by side at the end, at different
    addresses. *)
Theorem task_wrappers_never_reused
    this1 f1 (os : list (op Mem)) this2 f2 w :
  ∃ w1 w2 w3 task1 task2,
    dispatch facility this1 f1 w = Ok tt w1 ∧
    calls w1 = calls w ++ [task1] ∧
    heap w !! task1 = None ∧
    heap w1 !! task1 = Some (ObjTask {| m_task := f1 |}) ∧
    run_ops facility os w1 = Ok tt w2 ∧
    dispatch facility this2 f2 w2 = Ok tt w3 ∧
    calls w3 = calls w2 ++ [task2] ∧
    heap w2 !! task2 = None ∧
    heap w3 !! task2 = Some (ObjTask {| m_task := f2 |}) ∧
    heap w3 !! task1 = Some (ObjTask {| m_task := f1 |}) ∧
    task1 ≠ task2.
Proof.
  rewrite dispatch_unfold. eexists _.
  set (task1 := fresh (dom (heap w))).
  set (w1 := Build_World _ _ _ _).
  destruct (run_ops_grows facility os w1) as (w2 & Hrun & Hsub).
  exists w2. rewrite dispatch_unfold. eexists _, task1, (fresh (dom (heap w2))).
  assert (heap w1 !! task1 = Some (ObjTask {| m_task := f1 |})) as Hlive1
    by apply lookup_insert_eq.
  assert (heap w2 !! task1 = Some (ObjTask {| m_task := f1 |})) as Hlive2
    by (by eapply lookup_weaken).
  assert (fresh (dom (heap w2)) ≠ task1) as Hne.
  { intros Heq. by rewrite <- Heq, fresh_not_live in Hlive2. }
  split; [done |]. split; [done |]. split; [apply fresh_not_live |].
  split; [done |]. split; [done |]. split; [done |]. split; [done |].
  split; [apply fresh_not_live |]. simpl.
  split; [apply lookup_insert_eq |].
  split; [by rewrite lookup_insert_ne |].
  by intros Heq.
Qed.

(** As long as every wrapper handed over is still live, the call log
    never shows an address twice. Once the facility has deleted a
    wrapper its address may come back, for a new object. *)
Lemma call_log_no_repeats (os : list (op Mem)) w :
  calls_wf w →
  ∃ w', run_ops facility os w = Ok tt w' ∧ calls_wf w'.
Proof. apply run_ops_calls_wf. Qed.

(** C10. [create] returns a queue object that did not exist before, with
    a reference count of one; a later [create], whatever happened in
    between, returns another object and leaves the first one as it was. *)
Theorem create_fresh_instance (name1 name2 : string) (os : list (op Mem)) w :
  ∃ q1 w1 w2 q2 w3,
    create name1 w = Ok q1 w1 ∧
    heap w !! q1 = None ∧
    refCount w1 q1 = Some 1 ∧
    run_ops facility os w1 = Ok tt w2 ∧
    create name2 w2 = Ok q2 w3 ∧
    heap w2 !! q2 = None ∧
    refCount w3 q2 = Some 1 ∧
    q1 ≠ q2 ∧
    refCount w3 q1 = Some 1.
Proof.
  rewrite create_unfold. eexists _, _.
  set (q1 := fresh (dom (heap w))).
  set (w1 := set_heap _ w).
  destruct (run_ops_grows facility os w1) as (w2 & Hrun & Hsub).
  exists w2. rewrite create_unfold. eexists _, _.
  assert (heap w2 !! q1 = Some (ObjWorkQueue PhonyWorkQueue_ctor)) as Hq1.
  { eapply lookup_weaken; [| exact Hsub]. apply lookup_insert_eq. }
  assert (q1 ≠ fresh (dom (heap w2))) as Hne.
  { intros Heq. rewrite Heq, fresh_not_live in Hq1. done. }
  split; [done |]. split; [apply fresh_not_live |].
  split; [unfold refCount; simpl; by rewrite lookup_insert_eq |].
  split; [done |]. split; [done |]. split; [apply fresh_not_live |].
  split; [unfold refCount; simpl; by rewrite lookup_insert_eq |].
  split; [done |].
  unfold refCount; simpl. fold q1.
  rewrite lookup_insert_ne by (intros Heq; apply Hne; symmetry; exact Heq).
  by rewrite Hq1.
Qed.

End Claims.

(** * Whole client programs

    What sequences of [create] and [dispatch] calls add up to. *)

Section Programs.

Context {Mem Ext : Type} (facility : loc → Ext → Ext).
Implicit Types (w : World Mem Ext) (f : Function Mem) (p this : loc).

(** X1. A client program hands its computations to the facility in
    program order: the entries it adds to the call log address wrappers
    of exactly the computations it dispatched, one per [dispatch], in the
    order of the calls; [create] adds none; and none of the computations
    has run when the program is through. *)
Theorem run_ops_forwards_in_order (os : list (op Mem)) w :
  ∃ w' tasks,
    run_ops facility os w = Ok tt w' ∧
    calls w' = calls w ++ tasks ∧
    wrapped_function w' <$> tasks = Some <$> dispatched os ∧
    length tasks = length (dispatched os) ∧
    mem w' = mem w.
Proof.
  destruct (run_ops_trace facility os w)
    as (w' & tasks & Hrun & _ & Hcalls & Hfs & Hmem & _).
  exists w', tasks. repeat (split; [done |]). split; [| done].
  apply (f_equal length) in Hfs. by rewrite !length_fmap in Hfs.
Qed.

(** X2. The facility makes one transition for each [dispatch] of a
    client program and none for a [create]: its state afterwards is its
    transitions applied, oldest first, to as many pointers as the program
    has [dispatch] calls, each the address of the wrapper of the matching
    computation, and these are the pointers the program added to the call
    log. *)
Theorem run_ops_facility_sees_log (os : list (op Mem)) w :
  ∃ w' tasks,
    run_ops facility os w = Ok tt w' ∧
    ext w' = foldl (λ e task, facility task e) (ext w) tasks ∧
    length tasks = length (dispatched os) ∧
    wrapped_function w' <$> tasks = Some <$> dispatched os ∧
    calls w' = calls w ++ tasks.
Proof.
  destruct (run_ops_trace facility os w)
    as (w' & tasks & Hrun & _ & Hcalls & Hfs & _ & Hext).
  exists w', tasks. repeat (split; [done |]). split; [| done].
  apply (f_equal length) in Hfs. by rewrite !length_fmap in Hfs.
Qed.

(** X3. [dispatch] allocates one object per call and frees none: [n]
    successive calls leave [n] more objects on the heap and [n] more
    entries in the call log. [dispatch] does not delete the wrapper it
    submits; that is left to the facility. *)
Theorem dispatch_all_allocates_one_each this (fs : list (Function Mem)) w :
  ∃ w',
    dispatch_all facility this fs w = Ok tt w' ∧
    size (heap w') = size (heap w) + length fs ∧
    length (calls w') = length (calls w) + length fs.
Proof. apply dispatch_all_size. Qed.


End Programs.

(** * The model at work *)

(** The scenario of the spec: a dispatcher labelled "A", one dispatch of
    a computation that increments a counter. When the call returns the
    facility has been called once, with a wrapper of that computation,
    and the counter has not moved. *)
Example scenario_label_A :
  ∃ q w1 task w2,
    create "A" empty_world = Ok q w1 ∧
    dispatch recording_facility q increment w1 = Ok tt w2 ∧
    calls w2 = [task] ∧ ext w2 = [task] ∧
    wrapped_function w2 task = Some increment ∧
    mem w2 = 0%Z.
Proof. eexists _, _, _, _. repeat split. Qed.

(** A facility that fails leaves its mark in its own state only; the
    caller gets unit back all the same. *)
Example failing_facility_unnoticed :
  ∃ w', dispatch failing_facility 1 increment (init_world 0%Z false)
          = Ok tt w' ∧
        ext w' = true ∧ mem w' = 0%Z.
Proof. by eexists. Qed.

(** Running the computation, by contrast, does move the counter. *)
Example invoke_increments :
  ∃ w', invoke increment empty_world = Ok tt w' ∧ mem w' = 1%Z.
Proof. by eexists. Qed.


(** On [busy_world], whose log already has the live wrapper at 2, three
    more calls keep the log free of repeated addresses. *)
Example busy_world_log_no_repeats :
  ∃ w',
    run_ops recording_facility
      [OpDispatch 1 increment; OpCreate "B"; OpDispatch 9 double] busy_world
      = Ok tt w' ∧
    calls_wf w'.
Proof.
  apply call_log_no_repeats. split; simpl.
  - apply NoDup_singleton.
  - apply Forall_singleton. by eexists.
Qed.

(** On [freed_world] the address 1 comes back, and what lives there is a
    new object: nothing was at 1 before the call. *)
Example freed_world_address_comes_back :
  ∃ w',
    dispatch recording_facility 3 increment freed_world = Ok tt w' ∧
    calls w' = [1; 1]%positive ∧
    heap freed_world !! 1%positive = None ∧
    wrapped_function w' 1 = Some increment.
Proof. by eexists. Qed.


(** The same program, run: two new wrappers at 3 and 5, in call order,
    and the recording facility has them after the one it already had. *)
Example busy_world_run :
  ∃ w',
    run_ops recording_facility
      [OpDispatch 1 increment; OpCreate "B"; OpDispatch 9 double] busy_world
      = Ok tt w' ∧
    calls w' = [2; 3; 5]%positive ∧
    ext w' = [2; 3; 5]%positive ∧
    wrapped_function w' <$> calls w' = [Some double; Some increment; Some double] ∧
    mem w' = 5%Z.
Proof. eexists. repeat split. Qed.

End Bun.
